(** * Page-link collection and sitemap emission of the documentation build

    A shallow embedding of the two build hooks of
    [docs/.vitepress/config.mts]:

    - [transformPageData] (lines 244-251), called once per rendered page,
      pushes one record onto the module-level array [links] (line 7);
    - [buildEnd] (lines 252-263), called once when the build is over, pipes
      a [SitemapStream] into a file write stream opened on
      [resolve(outDir, 'sitemap.xml')], writes every record of [links] to it
      and waits for the write stream's ['finish'] event.

    JavaScript strings are embedded as [string], the optional number
    [lastUpdated] as [option Z], the array [links] as a [list], the files of
    the output tree as a [gmap] from paths to contents. *)

From Stdlib Require Import ZArith Ascii.
From stdpp Require Import gmap strings list.

(** ** JavaScript strings *)

Module JsString.

(** [s.replace(/lit$/, rep)] for a regular expression made of the literal
    [lit] followed by the end-of-input anchor (no [m] flag), and a
    replacement [rep] without [$] patterns.  The matcher tries the start
    indices from left to right; at an index the pattern matches exactly
    when what is left of the input is [lit].  The first match is replaced,
    and a string without a match is returned as it is. *)
Fixpoint replace_at_end (lit rep s : string) : string :=
  if String.eqb s lit then rep
  else match s with
       | EmptyString => EmptyString
       | String c s' => String c (replace_at_end lit rep s')
       end.

(** Whether [s] ends with [suf], as [s.endsWith(suf)] decides it; the
    hooks do not call it, the statements about [replace_at_end] do. *)
Fixpoint ends_with (suf s : string) : bool :=
  if String.eqb s suf then true
  else match s with
       | EmptyString => false
       | String _ s' => ends_with suf s'
       end.

(** [s.includes(needle)]: the needle is looked for at every index of [s],
    first to last, and is found at an index when it is the beginning of
    what is left of [s] there. *)
Fixpoint includes (needle s : string) : bool :=
  if String.prefix needle s then true
  else match s with
       | EmptyString => false
       | String _ s' => includes needle s'
       end.

(** Whether the character [c] occurs in [s]. *)
Fixpoint has_char (c : Ascii.ascii) (s : string) : bool :=
  match s with
  | EmptyString => false
  | String x s' => if Ascii.eqb x c then true else has_char c s'
  end.

End JsString.

(** ** Data *)

(** The part of VitePress's [PageData] that the hook reads. *)
Record PageData := mkPageData {
  relativePath : string;
  lastUpdated : option Z
}.

(** An element of [links]: [{ url: string, lastmod: number | undefined }]. *)
Record Link := mkLink {
  url : string;
  lastmod : option Z
}.

(** The url expression of line 248:
    [relativePath.replace(/index\.md$/, '').replace(/\.md$/, '.html')]. *)
Definition page_url (relativePath : string) : string :=
  JsString.replace_at_end ".md" ".html"
    (JsString.replace_at_end "index.md" "" relativePath).

(** ** Completions of a hook call *)

(** A JavaScript call completes normally with a value or abruptly with a
    thrown error. *)
Inductive completion (A : Type) : Type :=
| Normal (a : A)
| Throw (msg : string).

Arguments Normal {A} a.
Arguments Throw {A} msg.

(** ** The sitemap stream and the output tree *)

(** One [<url>] element of a sitemap: its [<loc>] text and, when the
    element has one, the time of its [<lastmod>] child. *)
Record UrlEntry := mkUrlEntry {
  loc : string;
  lastmod_elt : option Z
}.

(** What the readable side of a sitemap stream hands to its destination:
    the opening of the root [urlset] element, one [url] element, or the
    closing of the root element. *)
Inductive chunk : Type :=
| UrlsetOpen
| UrlElt (e : UrlEntry)
| UrlsetClose.

(** The operations of the class [SitemapStream] of the package [sitemap]
    (imported at line 5) that [buildEnd] calls.  The package is a
    dependency of the site and not part of it: the hooks are embedded over
    any implementation of this interface.  The interface takes a record as
    a value and has no failure of its own: a stream neither assigns to the
    objects it is given nor emits an error. *)
Class SitemapStreamImpl := {
  sm_stream : Type;
  (** [new SitemapStream({ hostname })] *)
  sm_new : string -> sm_stream;
  (** [sitemap.write(link)] *)
  sm_write : Link -> sm_stream -> sm_stream;
  (** [sitemap.end()] *)
  sm_end : sm_stream -> sm_stream;
  (** the chunks the readable side has produced so far, oldest first *)
  sm_pushed : sm_stream -> list chunk
}.

(** The url elements of a file, in file order. *)
Fixpoint url_entries (doc : list chunk) : list UrlEntry :=
  match doc with
  | [] => []
  | UrlElt e :: doc' => e :: url_entries doc'
  | _ :: doc' => url_entries doc'
  end.

(** A complete document: the root is opened, any number of url elements
    follow, the root is closed, and nothing comes after. *)
Fixpoint urlset_body (doc : list chunk) : bool :=
  match doc with
  | [UrlsetClose] => true
  | UrlElt _ :: doc' => urlset_body doc'
  | _ => false
  end.

Definition well_formed (doc : list chunk) : bool :=
  match doc with
  | UrlsetOpen :: doc' => urlset_body doc'
  | _ => false
  end.

(** ** The state the hooks work on *)

(** [links] is the module-level array of line 7; [files] maps the path of
    every regular file of the output tree to the chunks it holds. *)
Record World := mkWorld {
  links : list Link;
  files : gmap string (list chunk)
}.

(** The state of a fresh build process over an output tree [fs]:
    [const links = []]. *)
Definition init (fs : gmap string (list chunk)) : World :=
  {| links := []; files := fs |}.

(** [links.push(link)] *)
Definition push (link : Link) (w : World) : World :=
  {| links := links w ++ [link]; files := files w |}.

(** [xs.forEach(cb)]: the callback runs on every element, first to last. *)
Definition forEach {A S : Type} (xs : list A) (cb : A -> S -> S) (s : S) : S :=
  fold_left (fun acc x => cb x acc) xs s.

(** ** The collector hook *)

(** [transformPageData(pageData)], lines 244-251.  Its body is one [push]
    of an object literal; nothing in it throws. *)
Definition transformPageData (pageData : PageData) (w : World) : completion World :=
  Normal (push {| url := page_url (relativePath pageData);
                  lastmod := lastUpdated pageData |} w).

(** The generator renders the pages one after the other and calls the hook
    on each; a thrown error ends the build. *)
Fixpoint render_pages (pages : list PageData) (w : World) : completion World :=
  match pages with
  | [] => Normal w
  | p :: pages' =>
      match transformPageData p w with
      | Normal w' => render_pages pages' w'
      | Throw msg => Throw msg
      end
  end.

(** The record the hook makes of a page. *)
Definition link_of (p : PageData) : Link :=
  {| url := page_url (relativePath p); lastmod := lastUpdated p |}.

(** ** File output *)

(** The failures of the operating system. *)
Inductive io_fault : Type := ENOENT | EACCES | EISDIR | ENOSPC.

(** What the operating system does with the destination during one run:
    - [IoOk]: the file opens and every write succeeds;
    - [OpenFails e]: the file cannot be opened (its directory is missing
      or not writable, or the path is a directory);
    - [WriteFails k e]: the file opens and takes [k] chunks, a further
      write fails with [e] (a full disk). *)
Inductive io_env : Type :=
| IoOk
| OpenFails (e : io_fault)
| WriteFails (k : nat) (e : io_fault).

(** The events of a write stream that matter here. *)
Inductive stream_event : Type :=
| Finish
| Error (e : io_fault).

(** The names under which listeners are registered. *)
Inductive event_name : Type := finish | error.

(** The listeners the hook registers: [() => resolve()] is the only one. *)
Inductive listener : Type := ResolvePromise.

(** A write stream: its path and the listeners registered on it. *)
Record WriteStream := mkWriteStream {
  ws_path : string;
  on_finish : list listener;
  on_error : list listener
}.

(** [createWriteStream(path)]: default flags ['w'], no listener yet. *)
Definition createWriteStream (path : string) : WriteStream :=
  {| ws_path := path; on_finish := []; on_error := [] |}.

(** [stream.on(name, listener)] *)
Definition on (name : event_name) (l : listener) (ws : WriteStream) : WriteStream :=
  match name with
  | finish => {| ws_path := ws_path ws; on_finish := on_finish ws ++ [l]; on_error := on_error ws |}
  | error => {| ws_path := ws_path ws; on_finish := on_finish ws; on_error := on_error ws ++ [l] |}
  end.

(** What [source.pipe(dest)] brings about once the synchronous part of the
    hook is over and the source has ended: the destination is opened with
    flags ['w'] (created, or emptied when it exists), takes the chunks in
    order, is ended and emits ['finish']; a failure emits ['error'] instead
    and leaves on disk what was written before it. *)
Definition flow (io : io_env) (chunks : list chunk) (dest : WriteStream)
    (fs : gmap string (list chunk)) : gmap string (list chunk) * stream_event :=
  match io with
  | IoOk => (<[ws_path dest := chunks]> fs, Finish)
  | OpenFails e => (fs, Error e)
  | WriteFails k e =>
      if decide (length chunks <= k) then (<[ws_path dest := chunks]> fs, Finish)
      else (<[ws_path dest := take k chunks]> fs, Error e)
  end.

(** The promise an async hook returns. *)
Inductive promise_state : Type :=
| Fulfilled
| Rejected (e : io_fault)
| Pending.

(** How a run of [buildEnd] ends: the state of its promise, and the error
    that was emitted on a stream without an ['error'] listener, which Node
    throws as an uncaught exception of the process. *)
Record Outcome := mkOutcome {
  promise : promise_state;
  uncaught : option io_fault
}.

(** Delivery of an event to the listeners of the write stream. *)
Definition emit (ev : stream_event) (ws : WriteStream) : Outcome :=
  match ev with
  | Finish =>
      {| promise := match on_finish ws with
                    | ResolvePromise :: _ => Fulfilled
                    | [] => Pending
                    end;
         uncaught := None |}
  | Error e =>
      {| promise := Pending;
         uncaught := match on_error ws with
                     | [] => Some e
                     | _ :: _ => None
                     end |}
  end.

(** The [hostname] option of line 254. *)
Definition hostname : string := "https://yourdomain.com/".

(** ** The chunking option of the bundler *)

(** [manualChunks(id)], lines 232-236, of [vite.build.rollupOptions.output]:
    the name of the chunk of the module [id], or [undefined] to leave the
    choice to the bundler. *)
Definition manualChunks (id : string) : option string :=
  if JsString.includes "node_modules" id then Some "vendor" else None.

(** ** The emitter hook *)

Section BuildEnd.

Context {impl : SitemapStreamImpl}.

(** [resolve] of [node:path]. *)
Variable resolve : string -> string -> string.

(** [buildEnd({ outDir })], lines 252-263, under the environment [io].
    The statements up to the [await] run first: construction of the two
    streams, [sitemap.pipe(writeStream)], the writes, [sitemap.end()] and
    the registration of the ['finish'] listener.  The data then flows
    through the pipe, and the event the write stream emits decides the
    promise. *)
Definition buildEnd (io : io_env) (outDir : string) (w : World) : Outcome * World :=
  let sitemap := sm_new hostname in
  let writeStream := createWriteStream (resolve outDir "sitemap.xml") in
  let sitemap := forEach (links w) (fun link => sm_write link) sitemap in
  let sitemap := sm_end sitemap in
  let writeStream := on finish ResolvePromise writeStream in
  let '(fs, ev) := flow io (sm_pushed sitemap) writeStream (files w) in
  (emit ev writeStream, {| links := links w; files := fs |}).

(** What the sitemap stream produces for a list of records: the stream is
    made, takes the records first to last, and is ended. *)
Definition emitted (ls : list Link) : list chunk :=
  sm_pushed (sm_end (forEach ls (fun link => sm_write link) (sm_new hostname))).

(** The path of the destination. *)
Definition sitemap_path (outDir : string) : string :=
  resolve outDir "sitemap.xml".

(** A whole build: every page is rendered, then the emitter runs. *)
Definition build (io : io_env) (outDir : string) (pages : list PageData)
    (fs : gmap string (list chunk)) : completion (Outcome * World) :=
  match render_pages pages (init fs) with
  | Normal w => Normal (buildEnd io outDir w)
  | Throw msg => Throw msg
  end.

End BuildEnd.

(** ** The sitemap stream of the specification *)

Module SpecSitemap.

(** Modelled from the spec: the class [SitemapStream] of the package
    [sitemap], which the site imports and whose code is not part of the
    repository.  Section 4.2: for each record, concatenate the host base
    URL and [url] to form an absolute URL; emit one sitemap entry per
    record carrying that URL and, if present, the [lastModified] value.
    Section 6: a root urlset element containing one url element per
    record, each with a loc and an optional lastmod; an empty list gives a
    sitemap with zero entries. *)
Definition entry_of (host : string) (l : Link) : UrlEntry :=
  {| loc := host +:+ url l; lastmod_elt := lastmod l |}.

Record stream := mkStream {
  sm_hostname : string;
  sm_out : list chunk
}.

Definition new (host : string) : stream :=
  {| sm_hostname := host; sm_out := [UrlsetOpen] |}.

Definition write (l : Link) (s : stream) : stream :=
  {| sm_hostname := sm_hostname s;
     sm_out := sm_out s ++ [UrlElt (entry_of (sm_hostname s) l)] |}.

Definition end_ (s : stream) : stream :=
  {| sm_hostname := sm_hostname s; sm_out := sm_out s ++ [UrlsetClose] |}.

#[export] Instance impl : SitemapStreamImpl :=
  {| sm_stream := stream; sm_new := new; sm_write := write;
     sm_end := end_; sm_pushed := sm_out |}.

(** Modelled from the spec: the bytes of a chunk, section 6 (a loc with
    the absolute URL and an optional lastmod with an ISO-8601 timestamp).
    [toISOString] is the formatter of timestamps. *)
Definition chunk_xml (toISOString : Z -> string) (c : chunk) : string :=
  match c with
  | UrlsetOpen => "<urlset>"
  | UrlElt e =>
      "<url><loc>" +:+ loc e +:+ "</loc>" +:+
      match lastmod_elt e with
      | Some t => "<lastmod>" +:+ toISOString t +:+ "</lastmod>"
      | None => ""
      end +:+ "</url>"
  | UrlsetClose => "</urlset>"
  end.

(** Modelled from the spec: the bytes of a file, its chunks one after the
    other. *)
Definition file_bytes (toISOString : Z -> string) (doc : list chunk) : string :=
  foldr (fun c acc => chunk_xml toISOString c +:+ acc) "" doc.

(** Modelled from the spec: the sitemap of a list of records, section 6:
    the root element with one url element per record, in the order of the
    list. *)
Definition document (host : string) (ls : list Link) : list chunk :=
  UrlsetOpen :: map (fun l => UrlElt (entry_of host l)) ls ++ [UrlsetClose].

End SpecSitemap.

(** From here on the sitemap stream is the one of the specification,
    unless a statement binds another. *)
#[global] Existing Instance SpecSitemap.impl.

(** [resolve] on an absolute directory in normal form. *)
Definition join_path (dir name : string) : string := dir +:+ "/" +:+ name.

(** * Properties *)

(** ** The url expression on sample paths *)

Example page_url_index : page_url "index.md" = "".
Proof. reflexivity. Qed.

Example page_url_guide_index : page_url "guide/index.md" = "guide/".
Proof. reflexivity. Qed.

Example page_url_page : page_url "guide/getting-started.md" = "guide/getting-started.html".
Proof. reflexivity. Qed.

Example page_url_other : page_url "logo.svg" = "logo.svg".
Proof. reflexivity. Qed.

(** ** End-anchored replacement *)

Section ReplaceAtEnd.

Variables lit rep : string.

Lemma length_app_string (a b : string) :
  String.length (a +:+ b) = String.length a + String.length b.
Proof. induction a as [|c a IH]; simpl; [done | by rewrite IH]. Qed.

(** A string longer than the literal is not the literal. *)
Lemma cons_app_neq (c : Ascii.ascii) (q : string) : String c (q +:+ lit) <> lit.
Proof.
  intros E. apply (f_equal String.length) in E.
  simpl in E. rewrite length_app_string in E. lia.
Qed.

Lemma replace_at_end_unfold (s : string) :
  JsString.replace_at_end lit rep s =
  if String.eqb s lit then rep
  else match s with
       | EmptyString => EmptyString
       | String c s' => String c (JsString.replace_at_end lit rep s')
       end.
Proof. by destruct s. Qed.

(** A string that ends with the literal has the literal replaced. *)
Lemma replace_at_end_suffix (q : string) :
  JsString.replace_at_end lit rep (q +:+ lit) = q +:+ rep.
Proof.
  induction q as [|c q IH]; rewrite replace_at_end_unfold.
  - change ("" +:+ lit) with lit. by rewrite String.eqb_refl.
  - change (String c q +:+ lit) with (String c (q +:+ lit)).
    destruct (String.eqb_spec (String c (q +:+ lit)) lit) as [E|_].
    + by apply cons_app_neq in E.
    + by rewrite IH.
Qed.

Lemma ends_with_unfold (s : string) :
  JsString.ends_with lit s =
  if String.eqb s lit then true
  else match s with
       | EmptyString => false
       | String _ s' => JsString.ends_with lit s'
       end.
Proof. by destruct s. Qed.

(** [ends_with] decides whether the string is some prefix followed by the
    literal. *)
Lemma ends_with_true_iff (s : string) :
  JsString.ends_with lit s = true <-> exists q, s = q +:+ lit.
Proof.
  split.
  - induction s as [|c s IH]; rewrite ends_with_unfold.
    + destruct (String.eqb_spec "" lit) as [E|_]; [|done].
      intros _. exists "". by rewrite <- E.
    + destruct (String.eqb_spec (String c s) lit) as [E|_].
      * intros _. exists "". by rewrite <- E.
      * intros [q ->]%IH. by exists (String c q).
  - intros [q ->]. induction q as [|c q IH]; rewrite ends_with_unfold.
    + change ("" +:+ lit) with lit. by rewrite String.eqb_refl.
    + change (String c q +:+ lit) with (String c (q +:+ lit)).
      by destruct (String.eqb_spec (String c (q +:+ lit)) lit).
Qed.

(** A string that does not end with the literal is returned as it is. *)
Lemma replace_at_end_other (s : string) :
  JsString.ends_with lit s = false -> JsString.replace_at_end lit rep s = s.
Proof.
  induction s as [|c s IH]; rewrite ends_with_unfold, replace_at_end_unfold.
  - by destruct (String.eqb_spec "" lit).
  - destruct (String.eqb_spec (String c s) lit); [done|].
    intros Hno. by rewrite IH.
Qed.

End ReplaceAtEnd.

Lemma app_empty_r (s : string) : s +:+ "" = s.
Proof.
  induction s as [|c s IH]; [done|].
  change (String c s +:+ "") with (String c (s +:+ "")). by rewrite IH.
Qed.

Lemma app_assoc_string (a b c : string) : (a +:+ b) +:+ c = a +:+ (b +:+ c).
Proof.
  induction a as [|x a IH]; [done|].
  change ((String x a +:+ b) +:+ c) with (String x ((a +:+ b) +:+ c)).
  by rewrite IH.
Qed.

(** ** The collector *)

Lemma render_pages_links (pages : list PageData) (w : World) :
  render_pages pages w =
  Normal {| links := links w ++ map link_of pages; files := files w |}.
Proof.
  revert w. induction pages as [|p pages IH]; intros w; simpl.
  - rewrite app_nil_r. by destruct w.
  - rewrite IH. simpl. by rewrite <- app_assoc.
Qed.

(** ** The emitter over any sitemap stream *)

Section Emitter.

Context {impl : SitemapStreamImpl}.
Variable resolve : string -> string -> string.

Lemma buildEnd_ok (outDir : string) (w : World) :
  buildEnd resolve IoOk outDir w =
  ({| promise := Fulfilled; uncaught := None |},
   {| links := links w;
      files := <[sitemap_path resolve outDir := emitted (links w)]> (files w) |}).
Proof. reflexivity. Qed.

Lemma buildEnd_open_fails (e : io_fault) (outDir : string) (w : World) :
  buildEnd resolve (OpenFails e) outDir w =
  ({| promise := Pending; uncaught := Some e |}, w).
Proof. by destruct w. Qed.

Lemma buildEnd_write_fails (k : nat) (e : io_fault) (outDir : string) (w : World) :
  k < length (emitted (links w)) ->
  buildEnd resolve (WriteFails k e) outDir w =
  ({| promise := Pending; uncaught := Some e |},
   {| links := links w;
      files := <[sitemap_path resolve outDir := take k (emitted (links w))]> (files w) |}).
Proof.
  intros Hk. unfold buildEnd, flow. fold (emitted (links w)).
  destruct (decide (length (emitted (links w)) <= k)); [lia | done].
Qed.

Lemma buildEnd_write_enough (k : nat) (e : io_fault) (outDir : string) (w : World) :
  length (emitted (links w)) <= k ->
  buildEnd resolve (WriteFails k e) outDir w = buildEnd resolve IoOk outDir w.
Proof.
  intros Hk. unfold buildEnd, flow. fold (emitted (links w)).
  destruct (decide (length (emitted (links w)) <= k)); [done | lia].
Qed.

(** The emitter leaves [links] as it found it, whatever the environment. *)
Lemma buildEnd_links (io : io_env) (outDir : string) (w : World) :
  links (buildEnd resolve io outDir w).2 = links w.
Proof. unfold buildEnd. by destruct (flow _ _ _ _). Qed.

(** The emitter touches no other file than the sitemap. *)
Lemma buildEnd_other_files (io : io_env) (outDir path : string) (w : World) :
  path <> sitemap_path resolve outDir ->
  files (buildEnd resolve io outDir w).2 !! path = files w !! path.
Proof.
  intros Hne. destruct io as [|e|k e].
  - rewrite buildEnd_ok. simpl. by rewrite lookup_insert_ne.
  - by rewrite buildEnd_open_fails.
  - destruct (decide (length (emitted (links w)) <= k)).
    + rewrite buildEnd_write_enough, buildEnd_ok by done.
      simpl. by rewrite lookup_insert_ne.
    + rewrite buildEnd_write_fails by lia. simpl. by rewrite lookup_insert_ne.
Qed.

(** A second run in the same environment changes nothing. *)
Lemma buildEnd_twice (io : io_env) (outDir : string) (w : World) :
  buildEnd resolve io outDir (buildEnd resolve io outDir w).2 =
  buildEnd resolve io outDir w.
Proof.
  destruct io as [|e|k e].
  - rewrite !buildEnd_ok. simpl. by rewrite insert_insert_eq.
  - by rewrite !buildEnd_open_fails.
  - destruct (decide (length (emitted (links w)) <= k)).
    + rewrite !buildEnd_write_enough, !buildEnd_ok by (by rewrite ?buildEnd_links).
      simpl. by rewrite insert_insert_eq.
    + rewrite (buildEnd_write_fails k e outDir w) by lia. simpl.
      rewrite buildEnd_write_fails by (simpl; lia). simpl.
      by rewrite insert_insert_eq.
Qed.

End Emitter.

(** ** The emitter over the sitemap stream of the specification *)

Lemma spec_forEach_write (ls : list Link) (s : SpecSitemap.stream) :
  forEach ls (fun link => SpecSitemap.write link) s =
  {| SpecSitemap.sm_hostname := SpecSitemap.sm_hostname s;
     SpecSitemap.sm_out :=
       SpecSitemap.sm_out s ++
       map (fun l => UrlElt (SpecSitemap.entry_of (SpecSitemap.sm_hostname s) l)) ls |}.
Proof.
  revert s. induction ls as [|l ls IH]; intros s.
  - simpl. rewrite app_nil_r. by destruct s.
  - unfold forEach in *. simpl. rewrite IH. simpl. by rewrite <- app_assoc.
Qed.

Lemma spec_emitted (ls : list Link) :
  emitted ls = SpecSitemap.document hostname ls.
Proof.
  unfold emitted. simpl. unfold SpecSitemap.end_.
  rewrite spec_forEach_write. reflexivity.
Qed.

Lemma url_entries_app (a b : list chunk) :
  url_entries (a ++ b) = url_entries a ++ url_entries b.
Proof.
  induction a as [|[|e|] a IH]; simpl; [done | done | by rewrite IH | done].
Qed.

Lemma url_entries_elts (es : list UrlEntry) :
  url_entries (map UrlElt es) = es.
Proof. induction es as [|e es IH]; simpl; [done | by rewrite IH]. Qed.

Lemma url_entries_document (host : string) (ls : list Link) :
  url_entries (SpecSitemap.document host ls) = map (SpecSitemap.entry_of host) ls.
Proof.
  unfold SpecSitemap.document. simpl. rewrite url_entries_app. simpl.
  rewrite app_nil_r, <- (url_entries_elts (map _ ls)). by rewrite map_map.
Qed.

Lemma urlset_body_closed (es : list UrlEntry) :
  urlset_body (map UrlElt es ++ [UrlsetClose]) = true.
Proof. induction es as [|e es IH]; [done | exact IH]. Qed.

Lemma well_formed_document (host : string) (ls : list Link) :
  well_formed (SpecSitemap.document host ls) = true.
Proof.
  unfold SpecSitemap.document. simpl.
  rewrite <- (map_map (SpecSitemap.entry_of host) UrlElt). apply urlset_body_closed.
Qed.

Lemma urlset_body_open (es : list UrlEntry) :
  urlset_body (map UrlElt es) = false.
Proof. induction es as [|e es IH]; [done | exact IH]. Qed.

(** A document cut short before its end is not a complete document. *)
Lemma truncated_document (host : string) (ls : list Link) (k : nat) :
  k < length (SpecSitemap.document host ls) ->
  well_formed (take k (SpecSitemap.document host ls)) = false.
Proof.
  unfold SpecSitemap.document. intros Hk. destruct k as [|k]; [done|].
  simpl in *. rewrite length_app, length_map in Hk. simpl in Hk.
  rewrite take_app_le by (rewrite length_map; lia).
  rewrite <- (map_map (SpecSitemap.entry_of host) UrlElt), firstn_map.
  apply urlset_body_open.
Qed.

(** * The claims *)

(** ** C1 *)

(** C1.  On a run without a failure the emitter writes a sitemap whose url
    entries are the entries of the collected records, one each, in the order
    of collection, and the loc of each is the host base URL followed by the
    url of its record; over a whole build the entries are those of the
    rendered pages, in rendering order. *)
Theorem sitemap_has_one_entry_per_record
    (resolve : string -> string -> string) (outDir : string) :
  (forall w : World, exists doc : list chunk,
      buildEnd resolve IoOk outDir w =
        ({| promise := Fulfilled; uncaught := None |},
         {| links := links w;
            files := <[resolve outDir "sitemap.xml" := doc]> (files w) |}) /\
      url_entries doc = map (SpecSitemap.entry_of hostname) (links w) /\
      length (url_entries doc) = length (links w) /\
      (forall (i : nat) (l : Link), links w !! i = Some l ->
         exists e, url_entries doc !! i = Some e /\
                   loc e = hostname +:+ url l /\ lastmod_elt e = lastmod l)) /\
  (forall (pages : list PageData) (fs : gmap string (list chunk)),
      exists (doc : list chunk) (r : Outcome) (w' : World),
        build resolve IoOk outDir pages fs = Normal (r, w') /\
        promise r = Fulfilled /\
        links w' = map link_of pages /\
        files w' !! resolve outDir "sitemap.xml" = Some doc /\
        url_entries doc =
          map (fun p => {| loc := hostname +:+ page_url (relativePath p);
                           lastmod_elt := lastUpdated p |}) pages /\
        length (url_entries doc) = length pages).
Proof.
  assert (Hw : forall w : World, exists doc : list chunk,
      buildEnd resolve IoOk outDir w =
        ({| promise := Fulfilled; uncaught := None |},
         {| links := links w;
            files := <[resolve outDir "sitemap.xml" := doc]> (files w) |}) /\
      url_entries doc = map (SpecSitemap.entry_of hostname) (links w) /\
      length (url_entries doc) = length (links w) /\
      (forall (i : nat) (l : Link), links w !! i = Some l ->
         exists e, url_entries doc !! i = Some e /\
                   loc e = hostname +:+ url l /\ lastmod_elt e = lastmod l)).
  { intros w. exists (emitted (links w)). split; [apply buildEnd_ok|].
    rewrite spec_emitted, url_entries_document.
    split; [done|]. split; [by rewrite length_map|].
    intros i l Hi. exists (SpecSitemap.entry_of hostname l).
    split; [|done].
    change (map (SpecSitemap.entry_of hostname) (links w))
      with (SpecSitemap.entry_of hostname <$> links w).
    by rewrite list_lookup_fmap, Hi. }
  split; [exact Hw|].
  intros pages fs. unfold build. rewrite render_pages_links. simpl.
  destruct (Hw {| links := map link_of pages; files := fs |})
    as (doc & Hrun & Hentries & Hlen & _).
  exists doc, {| promise := Fulfilled; uncaught := None |},
    {| links := map link_of pages;
       files := <[resolve outDir "sitemap.xml" := doc]> fs |}.
  simpl in *. rewrite Hrun.
  repeat split; [apply lookup_insert_eq | | by rewrite Hlen, length_map].
  rewrite Hentries, map_map. reflexivity.
Qed.

(** ** C2 *)

(** C2, as stated, fails: when the disk takes the opening of the document
    and then refuses the next write, the promise stays pending, the error is
    an uncaught one, and the file that was opened stays in the output
    directory with the opening alone, which is not a complete document. *)
Lemma truncated_sitemap_left_in_place :
  let w := {| links := [mkLink "a.html" None]; files := ∅ |} in
  let r := buildEnd join_path (WriteFails 1 ENOSPC) "/dist" w in
  files w !! "/dist/sitemap.xml" = None /\
  r = ({| promise := Pending; uncaught := Some ENOSPC |},
       {| links := [mkLink "a.html" None];
          files := <["/dist/sitemap.xml" := [UrlsetOpen]]> ∅ |}) /\
  well_formed [UrlsetOpen] = false /\
  ~ (forall (io : io_env) (outDir : string) (w : World),
       files w !! join_path outDir "sitemap.xml" = None ->
       (promise (buildEnd join_path io outDir w).1 = Fulfilled /\
        exists doc, files (buildEnd join_path io outDir w).2
                      !! join_path outDir "sitemap.xml" = Some doc /\
                    well_formed doc = true) \/
       ((exists e, promise (buildEnd join_path io outDir w).1 = Rejected e \/
                   uncaught (buildEnd join_path io outDir w).1 = Some e) /\
        files (buildEnd join_path io outDir w).2
          !! join_path outDir "sitemap.xml" = None)).
Proof.
  intros w r. split; [done|]. split; [done|]. split; [done|].
  intros Hclaim.
  destruct (Hclaim (WriteFails 1 ENOSPC) "/dist" w eq_refl)
    as [[Hp _] | [_ Hf]].
  - discriminate Hp.
  - change (join_path "/dist" "sitemap.xml") with "/dist/sitemap.xml" in Hf.
    change (buildEnd join_path (WriteFails 1 ENOSPC) "/dist" w) with
      ({| promise := Pending; uncaught := Some ENOSPC |},
       {| links := [mkLink "a.html" None];
          files := <["/dist/sitemap.xml" := [UrlsetOpen]]> (∅ : gmap string (list chunk)) |}) in Hf.
    simpl in Hf. by rewrite lookup_insert_eq in Hf.
Qed.

(** C2, amended.  The emitter writes straight to the destination, with no
    ['error'] listener and no cleanup.  When the destination cannot be
    opened, nothing of the output tree changes, the promise stays pending
    and the error is an uncaught one.  When nothing fails, the complete
    document is in place and the promise is fulfilled.  When a write fails
    after [k] chunks, those [k] chunks stay in place, and they are not a
    complete document. *)
Theorem emission_outcomes
    (resolve : string -> string -> string) (outDir : string) (w : World) :
  (forall e : io_fault,
      buildEnd resolve (OpenFails e) outDir w =
        ({| promise := Pending; uncaught := Some e |}, w)) /\
  (buildEnd resolve IoOk outDir w =
     ({| promise := Fulfilled; uncaught := None |},
      {| links := links w;
         files := <[resolve outDir "sitemap.xml" :=
                      SpecSitemap.document hostname (links w)]> (files w) |}) /\
   well_formed (SpecSitemap.document hostname (links w)) = true) /\
  (forall (k : nat) (e : io_fault),
      k < length (SpecSitemap.document hostname (links w)) ->
      buildEnd resolve (WriteFails k e) outDir w =
        ({| promise := Pending; uncaught := Some e |},
         {| links := links w;
            files := <[resolve outDir "sitemap.xml" :=
                         take k (SpecSitemap.document hostname (links w))]>
                       (files w) |}) /\
      well_formed (take k (SpecSitemap.document hostname (links w))) = false) /\
  (forall io : io_env,
      forall e, promise (buildEnd resolve io outDir w).1 <> Rejected e).
Proof.
  split; [intros e; apply buildEnd_open_fails|].
  split.
  { split; [|apply well_formed_document].
    rewrite buildEnd_ok, spec_emitted. reflexivity. }
  split.
  { intros k e Hk. split; [|by apply truncated_document].
    rewrite <- spec_emitted in *. by apply buildEnd_write_fails. }
  intros [|e'|k e'] e.
  - by rewrite buildEnd_ok.
  - by rewrite buildEnd_open_fails.
  - destruct (decide (length (emitted (links w)) <= k)).
    + by rewrite buildEnd_write_enough, buildEnd_ok.
    + by rewrite buildEnd_write_fails by lia.
Qed.

Lemma emission_outcomes_witness :
  let w := {| links := [mkLink "a.html" None]; files := ∅ |} in
  1 < length (SpecSitemap.document hostname (links w)) /\
  buildEnd join_path (WriteFails 1 ENOSPC) "/dist" w =
    ({| promise := Pending; uncaught := Some ENOSPC |},
     {| links := links w;
        files := <[join_path "/dist" "sitemap.xml" :=
                     take 1 (SpecSitemap.document hostname (links w))]> (files w) |}).
Proof.
  intros w.
  assert (Hk : 1 < length (SpecSitemap.document hostname (links w))) by (simpl; lia).
  split; [exact Hk|].
  exact (proj1 (proj1 (proj2 (proj2 (emission_outcomes join_path "/dist" w)))
                  1 ENOSPC Hk)).
Defined.

(** ** C3 *)

(** C3, as stated, fails: when what precedes [index.md] itself ends in
    [.md], removing the suffix is not the end of it, the second replacement
    turns that [.md] into [.html]. *)
Lemma index_md_after_md_extension :
  transformPageData (mkPageData "a.mdindex.md" None) (init ∅) =
    Normal (push (mkLink "a.html" None) (init ∅)) /\
  ~ (forall (pd : PageData) (w : World) (q : string),
       relativePath pd = q +:+ "index.md" ->
       transformPageData pd w =
         Normal (push {| url := q; lastmod := lastUpdated pd |} w)).
Proof.
  split; [reflexivity|].
  intros Hclaim.
  specialize (Hclaim (mkPageData "a.mdindex.md" None) (init ∅) "a.md" eq_refl).
  discriminate Hclaim.
Qed.

(** C3, amended.  The record's url is the page path after two replacements
    in a row: a path ending in [index.md] has that suffix removed, and when
    what is left still ends in [.md], that [.md] becomes [.html]; any other
    path ending in [.md] has the [.md] replaced by [.html]. *)
Theorem record_url_by_cases (pd : PageData) (w : World) :
  exists r : Link,
    transformPageData pd w = Normal (push r w) /\
    lastmod r = lastUpdated pd /\
    (forall q : string,
        relativePath pd = q +:+ "index.md" ->
        JsString.ends_with ".md" q = false -> url r = q) /\
    (forall q : string,
        relativePath pd = (q +:+ ".md") +:+ "index.md" ->
        url r = q +:+ ".html") /\
    (forall q : string,
        relativePath pd = q +:+ ".md" ->
        JsString.ends_with "index.md" (relativePath pd) = false ->
        url r = q +:+ ".html").
Proof.
  exists (link_of pd). split; [reflexivity|]. split; [reflexivity|].
  simpl. unfold page_url. repeat split.
  - intros q -> Hq.
    rewrite replace_at_end_suffix, app_empty_r. by apply replace_at_end_other.
  - intros q ->.
    rewrite replace_at_end_suffix, app_empty_r. apply replace_at_end_suffix.
  - intros q Hp Hno.
    rewrite (replace_at_end_other "index.md" "" _ Hno), Hp.
    apply replace_at_end_suffix.
Qed.

Lemma record_url_by_cases_witness :
  exists r : Link,
    transformPageData (mkPageData "guide/index.md" (Some 1700000000%Z)) (init ∅) =
      Normal (push r (init ∅)) /\
    lastmod r = Some 1700000000%Z /\ url r = "guide/".
Proof.
  destruct (record_url_by_cases
              (mkPageData "guide/index.md" (Some 1700000000%Z)) (init ∅))
    as (r & Hrun & Hlm & Hindex & _).
  exists r. split; [exact Hrun|]. split; [exact Hlm|].
  apply (Hindex "guide/"); reflexivity.
Defined.

(** ** C4 *)

(** C4, as stated, fails: the hook has no check of the path, a call with
    the empty path completes normally and pushes a record. *)
Lemma empty_path_is_collected :
  transformPageData (mkPageData "" None) (init ∅) =
    Normal (push (mkLink "" None) (init ∅)) /\
  ~ (forall (pd : PageData) (w : World),
       relativePath pd = "" ->
       exists msg, transformPageData pd w = Throw msg).
Proof.
  split; [reflexivity|].
  intros Hclaim.
  destruct (Hclaim (mkPageData "" None) (init ∅) eq_refl) as [msg Hthrow].
  discriminate Hthrow.
Qed.

(** C4, amended.  The collector checks nothing: a call with the empty page
    path completes normally and appends a record whose url is the empty
    string. *)
Theorem empty_path_record (pd : PageData) (w : World) :
  relativePath pd = "" ->
  transformPageData pd w =
    Normal {| links := links w ++ [{| url := ""; lastmod := lastUpdated pd |}];
              files := files w |}.
Proof. intros Hp. unfold transformPageData. by rewrite Hp. Qed.

Lemma empty_path_record_witness :
  relativePath (mkPageData "" (Some 5%Z)) = "" /\
  transformPageData (mkPageData "" (Some 5%Z)) (init ∅) =
    Normal {| links := [{| url := ""; lastmod := Some 5%Z |}]; files := ∅ |}.
Proof.
  split; [reflexivity|].
  exact (empty_path_record (mkPageData "" (Some 5%Z)) (init ∅) eq_refl).
Defined.

(** ** C5 *)

(** C5.  The entry of a record without [lastmod] has no lastmod child: its
    bytes are the url element with the loc alone. *)
Theorem absent_lastmod_is_omitted
    (resolve : string -> string -> string) (toISOString : Z -> string)
    (outDir : string) (w : World) (i : nat) (l : Link) :
  links w !! i = Some l ->
  lastmod l = None ->
  exists (doc : list chunk) (e : UrlEntry),
    files (buildEnd resolve IoOk outDir w).2 !! resolve outDir "sitemap.xml"
      = Some doc /\
    url_entries doc !! i = Some e /\
    lastmod_elt e = None /\
    SpecSitemap.chunk_xml toISOString (UrlElt e) =
      "<url><loc>" +:+ hostname +:+ url l +:+ "</loc></url>".
Proof.
  intros Hi Hl.
  exists (SpecSitemap.document hostname (links w)), (SpecSitemap.entry_of hostname l).
  rewrite buildEnd_ok, spec_emitted. cbn [snd files].
  split; [apply lookup_insert_eq|].
  split.
  { rewrite url_entries_document.
    change (map (SpecSitemap.entry_of hostname) (links w))
      with (SpecSitemap.entry_of hostname <$> links w).
    by rewrite list_lookup_fmap, Hi. }
  split; [exact Hl|].
  unfold SpecSitemap.chunk_xml, SpecSitemap.entry_of. cbn [loc lastmod_elt].
  rewrite Hl, app_assoc_string. reflexivity.
Qed.

Lemma absent_lastmod_is_omitted_witness :
  let w := {| links := [mkLink "guide/intro.html" (Some 1700000000%Z);
                        mkLink "index.html" None];
              files := ∅ |} in
  exists (doc : list chunk) (e : UrlEntry),
    files (buildEnd join_path IoOk "/dist" w).2 !! join_path "/dist" "sitemap.xml"
      = Some doc /\
    url_entries doc !! 1 = Some e /\
    lastmod_elt e = None /\
    SpecSitemap.chunk_xml (fun _ => "2023-11-14T22:13:20.000Z") (UrlElt e) =
      "<url><loc>" +:+ hostname +:+ url (mkLink "index.html" None) +:+ "</loc></url>".
Proof.
  intros w.
  exact (absent_lastmod_is_omitted join_path (fun _ => "2023-11-14T22:13:20.000Z")
           "/dist" w 1 (mkLink "index.html" None) eq_refl eq_refl).
Defined.

(** ** C6 *)

(** C6.  Whatever the sitemap stream and whatever the environment, a second
    run of the emitter on the same records and output directory ends as the
    first and leaves the output tree as the first left it; on a run without
    a failure the file does not depend on what the output tree held before;
    and with the stream of the specification the file is the document of the
    records in insertion order, so its bytes are the same on both runs. *)
Theorem emission_is_idempotent
    (resolve : string -> string -> string) (outDir : string) (w : World) :
  (forall (impl : SitemapStreamImpl) (io : io_env),
      buildEnd resolve io outDir (buildEnd resolve io outDir w).2 =
      buildEnd resolve io outDir w) /\
  (forall (impl : SitemapStreamImpl) (fs : gmap string (list chunk)),
      files (buildEnd resolve IoOk outDir {| links := links w; files := fs |}).2
        !! resolve outDir "sitemap.xml" =
      files (buildEnd resolve IoOk outDir w).2 !! resolve outDir "sitemap.xml") /\
  (forall toISOString : Z -> string,
      exists doc1 doc2 : list chunk,
        files (buildEnd resolve IoOk outDir w).2 !! resolve outDir "sitemap.xml"
          = Some doc1 /\
        files (buildEnd resolve IoOk outDir (buildEnd resolve IoOk outDir w).2).2
          !! resolve outDir "sitemap.xml" = Some doc2 /\
        doc1 = SpecSitemap.document hostname (links w) /\
        SpecSitemap.file_bytes toISOString doc1 =
        SpecSitemap.file_bytes toISOString doc2).
Proof.
  split; [intros impl io; apply buildEnd_twice|].
  split.
  { intros impl fs. rewrite !buildEnd_ok. simpl.
    by rewrite !lookup_insert_eq. }
  intros toISOString.
  exists (SpecSitemap.document hostname (links w)),
    (SpecSitemap.document hostname (links w)).
  rewrite buildEnd_twice, buildEnd_ok, spec_emitted. cbn [snd files].
  by rewrite lookup_insert_eq.
Qed.

(** ** C7 *)

(** C7.  With no record the emitter succeeds and writes the root element
    opened and closed: a complete document without a url entry. *)
Theorem empty_list_gives_empty_urlset
    (resolve : string -> string -> string) (toISOString : Z -> string)
    (outDir : string) (fs : gmap string (list chunk)) :
  buildEnd resolve IoOk outDir {| links := []; files := fs |} =
    ({| promise := Fulfilled; uncaught := None |},
     {| links := [];
        files := <[resolve outDir "sitemap.xml" := [UrlsetOpen; UrlsetClose]]> fs |}) /\
  build resolve IoOk outDir [] fs =
    Normal (buildEnd resolve IoOk outDir {| links := []; files := fs |}) /\
  well_formed [UrlsetOpen; UrlsetClose] = true /\
  url_entries [UrlsetOpen; UrlsetClose] = [] /\
  SpecSitemap.file_bytes toISOString [UrlsetOpen; UrlsetClose] = "<urlset></urlset>".
Proof. repeat split. Qed.

(** ** C8 *)

(** C8.  Whatever the sitemap stream and the environment, the emitter
    leaves [links] as it found it; the collector is the one that writes it,
    by appending one record, and it leaves the output tree alone. *)
Theorem emission_keeps_links
    (impl : SitemapStreamImpl) (resolve : string -> string -> string)
    (io : io_env) (outDir : string) (w : World) :
  links (buildEnd resolve io outDir w).2 = links w /\
  (forall pd : PageData,
      exists w' : World,
        transformPageData pd w = Normal w' /\
        links w' = links w ++ [link_of pd] /\
        files w' = files w).
Proof.
  split; [apply buildEnd_links|].
  intros pd. by exists (push (link_of pd) w).
Qed.

(** ** C9 *)

(** C9.  Two calls of the collector with the same page append two records,
    and the sitemap then has an entry for each of them, one after the
    other. *)
Theorem same_page_twice_gives_two_entries
    (resolve : string -> string -> string) (outDir : string)
    (pd : PageData) (w : World) :
  exists (w1 w2 : World) (doc : list chunk),
    transformPageData pd w = Normal w1 /\
    transformPageData pd w1 = Normal w2 /\
    links w2 = links w ++ [link_of pd; link_of pd] /\
    files (buildEnd resolve IoOk outDir w2).2 !! resolve outDir "sitemap.xml"
      = Some doc /\
    url_entries doc =
      map (SpecSitemap.entry_of hostname) (links w) ++
      [SpecSitemap.entry_of hostname (link_of pd);
       SpecSitemap.entry_of hostname (link_of pd)] /\
    length (url_entries doc) = S (S (length (links w))).
Proof.
  exists (push (link_of pd) w), (push (link_of pd) (push (link_of pd) w)),
    (SpecSitemap.document hostname (links w ++ [link_of pd; link_of pd])).
  split; [reflexivity|]. split; [reflexivity|].
  assert (Hl : links (push (link_of pd) (push (link_of pd) w)) =
               links w ++ [link_of pd; link_of pd]).
  { unfold push. cbn [links]. by rewrite <- app_assoc. }
  split; [exact Hl|].
  rewrite buildEnd_ok, spec_emitted, Hl. cbn [snd files].
  split; [apply lookup_insert_eq|].
  rewrite url_entries_document, map_app.
  split; [reflexivity|].
  rewrite length_app, length_map. simpl. lia.
Qed.

(** ** C10 *)

(** C10.  The first replacement removes a trailing [index.md] whatever
    stands before it, a path separator or not; the url is what is left,
    after the second replacement: [appindex.md] gives [app], not
    [appindex.html]. *)
Theorem index_md_needs_no_separator :
  (forall q : string,
      JsString.replace_at_end "index.md" "" (q +:+ "index.md") = q) /\
  (forall q : string,
      page_url (q +:+ "index.md") = JsString.replace_at_end ".md" ".html" q) /\
  (forall (q : string) (t : option Z) (w : World),
      JsString.ends_with ".md" q = false ->
      transformPageData (mkPageData (q +:+ "index.md") t) w =
        Normal (push (mkLink q t) w)) /\
  page_url "appindex.md" = "app" /\
  page_url "appindex.md" <> "appindex.html".
Proof.
  assert (H1 : forall q : string,
             JsString.replace_at_end "index.md" "" (q +:+ "index.md") = q).
  { intros q. by rewrite replace_at_end_suffix, app_empty_r. }
  split; [exact H1|].
  split; [intros q; unfold page_url; by rewrite H1|].
  split; [|split; [reflexivity | discriminate]].
  intros q t w Hq. unfold transformPageData, page_url. cbn [relativePath lastUpdated].
  by rewrite H1, replace_at_end_other.
Qed.

(** * Further properties of the hooks *)

(** ** Strings *)

(** Two strings that end with tails of the same length have equal tails
    and equal beginnings. *)
Lemma app_inj_same_length (a b s1 s2 : string) :
  String.length s1 = String.length s2 ->
  a +:+ s1 = b +:+ s2 -> a = b /\ s1 = s2.
Proof.
  intros Hlen. revert b. induction a as [|x a IH]; intros [|y b] E.
  - by split.
  - change ("" +:+ s1) with s1 in E. subst s1.
    change (String y b +:+ s2) with (String y (b +:+ s2)) in Hlen.
    simpl in Hlen. rewrite length_app_string in Hlen. lia.
  - change ("" +:+ s2) with s2 in E. subst s2.
    change (String x a +:+ s1) with (String x (a +:+ s1)) in Hlen.
    simpl in Hlen. rewrite length_app_string in Hlen. lia.
  - change (String x (a +:+ s1) = String y (b +:+ s2)) in E.
    injection E as -> E. destruct (IH b E) as [-> ->]. by split.
Qed.

Lemma ends_with_false_iff (lit s : string) :
  JsString.ends_with lit s = false <-> ~ exists q, s = q +:+ lit.
Proof.
  rewrite <- ends_with_true_iff. by destruct (JsString.ends_with lit s).
Qed.

(** A string that ends with [.html] does not end with [.md]. *)
Lemma html_is_not_md (q : string) : JsString.ends_with ".md" (q +:+ ".html") = false.
Proof.
  apply ends_with_false_iff. intros [r E].
  replace (q +:+ ".html") with ((q +:+ ".h") +:+ "tml") in E
    by (by rewrite app_assoc_string).
  by destruct (app_inj_same_length (q +:+ ".h") r "tml" ".md" eq_refl E).
Qed.

(** A string that does not end with [.md] does not end with [index.md]. *)
Lemma no_md_no_index_md (s : string) :
  JsString.ends_with ".md" s = false -> JsString.ends_with "index.md" s = false.
Proof.
  rewrite !ends_with_false_iff. intros Hno [q ->]. apply Hno.
  exists (q +:+ "index"). by rewrite app_assoc_string.
Qed.

(** A string in which a character of the input occurs is not the literal,
    when the character does not occur in the literal. *)
Lemma has_char_neq (c : Ascii.ascii) (lit p f : string) :
  JsString.has_char c lit = false -> p +:+ String c f <> lit.
Proof.
  revert lit. induction p as [|x p IH]; intros lit Hc E; subst lit.
  - simpl in Hc. by rewrite Ascii.eqb_refl in Hc.
  - change (String x p +:+ String c f) with (String x (p +:+ String c f)) in Hc.
    simpl in Hc. destruct (Ascii.eqb x c); [done|]. by eapply IH.
Qed.

(** The replacement leaves alone what stands before a character that does
    not occur in the literal. *)
Lemma replace_at_end_after_char (c : Ascii.ascii) (lit rep d f : string) :
  JsString.has_char c lit = false ->
  JsString.replace_at_end lit rep (d +:+ String c f) =
  d +:+ String c (JsString.replace_at_end lit rep f).
Proof.
  intros Hc. induction d as [|x d IH]; rewrite replace_at_end_unfold.
  - change ("" +:+ String c f) with (String c f).
    destruct (String.eqb_spec (String c f) lit) as [E|_]; [|done].
    by apply (has_char_neq c lit "" f Hc) in E.
  - change (String x d +:+ String c f) with (String x (d +:+ String c f)).
    destruct (String.eqb_spec (String x (d +:+ String c f)) lit) as [E|_].
    + by apply (has_char_neq c lit (String x d) f Hc) in E.
    + by rewrite IH.
Qed.

Lemma prefix_true_iff (p s : string) :
  String.prefix p s = true <-> exists r, s = p +:+ r.
Proof.
  revert s. induction p as [|x p IH]; intros s.
  - split; [by exists s | by destruct s].
  - destruct s as [|y s]; simpl.
    + split; [done | by intros [r ?]].
    + destruct (Ascii.ascii_dec x y) as [->|Hne].
      * rewrite IH. split; intros [r E]; exists r.
        -- by rewrite E.
        -- change (String y p +:+ r) with (String y (p +:+ r)) in E.
           by injection E.
      * split; [done|]. intros [r E].
        change (String x p +:+ r) with (String x (p +:+ r)) in E.
        injection E as <- _. done.
Qed.

Lemma includes_unfold (needle s : string) :
  JsString.includes needle s =
  if String.prefix needle s then true
  else match s with
       | EmptyString => false
       | String _ s' => JsString.includes needle s'
       end.
Proof. by destruct s. Qed.

(** [includes] decides whether the needle occurs somewhere in the string. *)
Lemma includes_true_iff (needle s : string) :
  JsString.includes needle s = true <-> exists p r, s = p +:+ needle +:+ r.
Proof.
  split.
  - induction s as [|c s IH]; rewrite includes_unfold.
    + destruct (String.prefix needle "") eqn:Hp; [|done].
      intros _. apply prefix_true_iff in Hp as [r ->]. by exists "", r.
    + destruct (String.prefix needle (String c s)) eqn:Hp.
      * intros _. apply prefix_true_iff in Hp as [r ->]. by exists "", r.
      * intros (p & r & ->)%IH. by exists (String c p), r.
  - intros (p & r & ->). induction p as [|c p IH]; rewrite includes_unfold.
    + change ("" +:+ needle +:+ r) with (needle +:+ r).
      by rewrite (proj2 (prefix_true_iff needle (needle +:+ r))) by (by exists r).
    + destruct (String.prefix _ _); [done | exact IH].
Qed.

(** ** The url expression *)

Lemma page_url_no_md (p : string) : JsString.ends_with ".md" (page_url p) = false.
Proof.
  unfold page_url.
  destruct (JsString.ends_with ".md" (JsString.replace_at_end "index.md" "" p)) eqn:Hs.
  - apply ends_with_true_iff in Hs as [q ->].
    rewrite replace_at_end_suffix. apply html_is_not_md.
  - by rewrite replace_at_end_other.
Qed.

Lemma page_url_fixed (p : string) :
  JsString.ends_with ".md" p = false -> page_url p = p.
Proof.
  intros Hp. unfold page_url.
  rewrite (replace_at_end_other "index.md" "" p) by (by apply no_md_no_index_md).
  by apply replace_at_end_other.
Qed.

Lemma page_url_after_slash (d f : string) :
  page_url (d +:+ "/" +:+ f) = d +:+ "/" +:+ page_url f.
Proof.
  unfold page_url. change ("/" +:+ f) with (String "/"%char f).
  rewrite (replace_at_end_after_char "/"%char "index.md" "" d f eq_refl).
  by rewrite (replace_at_end_after_char "/"%char ".md" ".html" d _ eq_refl).
Qed.

(** X1.  No url that the collector records ends in [.md]: after any
    sequence of rendered pages, from the empty array, every record of
    [links] has a url without that ending. *)
Theorem collected_urls_never_end_in_md
    (pages : list PageData) (fs : gmap string (list chunk)) :
  exists w' : World,
    render_pages pages (init fs) = Normal w' /\
    Forall (fun l => JsString.ends_with ".md" (url l) = false) (links w').
Proof.
  rewrite render_pages_links. eexists. split; [reflexivity|]. simpl.
  change (map link_of pages) with (link_of <$> pages).
  apply Forall_fmap, Forall_true. intros p. apply page_url_no_md.
Qed.

(** X2.  The url expression gives back its own results: applying the two
    replacements to a url they produced changes nothing. *)
Theorem page_url_idempotent (p : string) : page_url (page_url p) = page_url p.
Proof. apply page_url_fixed, page_url_no_md. Qed.

(** X3.  The url expression works on the file name alone: what stands
    before a slash of the path, the slash included, is kept as it is. *)
Theorem page_url_keeps_directory (d f : string) (t : option Z) (w : World) :
  page_url (d +:+ "/" +:+ f) = d +:+ "/" +:+ page_url f /\
  transformPageData (mkPageData (d +:+ "/" +:+ f) t) w =
    Normal (push (mkLink (d +:+ "/" +:+ page_url f) t) w).
Proof.
  split; [apply page_url_after_slash|].
  unfold transformPageData. cbn [relativePath lastUpdated].
  by rewrite page_url_after_slash.
Qed.

(** X4.  The index page of a directory gets the url of the directory, with
    its closing slash. *)
Theorem directory_index_url (d : string) (t : option Z) (w : World) :
  transformPageData (mkPageData (d +:+ "/index.md") t) w =
    Normal (push (mkLink (d +:+ "/") t) w).
Proof.
  unfold transformPageData. cbn [relativePath lastUpdated].
  change (d +:+ "/index.md") with (d +:+ "/" +:+ "index.md").
  by rewrite page_url_after_slash.
Qed.

(** X5.  A path that does not end in [.md] is recorded as it is. *)
Theorem path_without_md_is_kept (pd : PageData) (w : World) :
  JsString.ends_with ".md" (relativePath pd) = false ->
  transformPageData pd w =
    Normal (push {| url := relativePath pd; lastmod := lastUpdated pd |} w).
Proof. intros Hp. unfold transformPageData. by rewrite page_url_fixed. Qed.

Lemma path_without_md_is_kept_witness :
  JsString.ends_with ".md" (relativePath (mkPageData "guide/intro.html" None)) = false /\
  transformPageData (mkPageData "guide/intro.html" None) (init ∅) =
    Normal (push (mkLink "guide/intro.html" None) (init ∅)).
Proof.
  split; [reflexivity|].
  exact (path_without_md_is_kept (mkPageData "guide/intro.html" None) (init ∅) eq_refl).
Defined.

(** ** The collector *)



(** ** The emitter *)

(** X7.  Whatever the sitemap stream and the environment, the emitter
    changes no file of the output tree but the one at
    [resolve(outDir, 'sitemap.xml')]. *)
Theorem emitter_touches_only_sitemap
    (impl : SitemapStreamImpl) (resolve : string -> string -> string)
    (io : io_env) (outDir path : string) (w : World) :
  path <> resolve outDir "sitemap.xml" ->
  files (buildEnd resolve io outDir w).2 !! path = files w !! path.
Proof. apply buildEnd_other_files. Qed.

Lemma emitter_touches_only_sitemap_witness :
  let w := {| links := [mkLink "a.html" None];
              files := <["/dist/index.html" := [UrlsetOpen]]> ∅ |} in
  "/dist/index.html" <> join_path "/dist" "sitemap.xml" /\
  files (buildEnd join_path (WriteFails 1 ENOSPC) "/dist" w).2 !! "/dist/index.html"
    = files w !! "/dist/index.html".
Proof.
  intros w.
  assert (Hne : "/dist/index.html" <> join_path "/dist" "sitemap.xml")
    by (vm_compute; discriminate).
  split; [exact Hne|].
  exact (emitter_touches_only_sitemap SpecSitemap.impl join_path
           (WriteFails 1 ENOSPC) "/dist" "/dist/index.html" w Hne).
Defined.



(** ** The chunking option *)

Lemma manualChunks_cases (id : string) :
  manualChunks id =
  if JsString.includes "node_modules" id then Some "vendor" else None.
Proof. reflexivity. Qed.

Lemma manualChunks_vendor (id : string) :
  manualChunks id = Some "vendor" <->
  exists p r : string, id = p +:+ "node_modules" +:+ r.
Proof.
  rewrite manualChunks_cases, <- includes_true_iff.
  by destruct (JsString.includes "node_modules" id).
Qed.

(** X9.  A module goes to the chunk [vendor] exactly when [node_modules]
    occurs somewhere in its id, and every other module is left to the
    bundler: the option names no other chunk. *)
Theorem manualChunks_vendor_iff (id : string) :
  (manualChunks id = Some "vendor" <->
   exists p r : string, id = p +:+ "node_modules" +:+ r) /\
  (manualChunks id = None <->
   ~ exists p r : string, id = p +:+ "node_modules" +:+ r) /\
  (forall name : string, manualChunks id = Some name -> name = "vendor").
Proof.
  split; [apply manualChunks_vendor|].
  rewrite <- manualChunks_vendor, manualChunks_cases.
  destruct (JsString.includes "node_modules" id).
  - split; [|by intros name [= <-]]. split; [done | by intros []].
  - split; [|done]. split; [by intros _ ? | done].
Qed.

(** X10.  The chunk [vendor] is kept under any longer id: a module whose id
    has the id of a vendor module inside it is a vendor module too. *)
Theorem manualChunks_vendor_extends (id a b : string) :
  manualChunks id = Some "vendor" ->
  manualChunks (a +:+ id +:+ b) = Some "vendor".
Proof.
  intros (p & r & ->)%manualChunks_vendor.
  apply manualChunks_vendor.
  exists (a +:+ p), (r +:+ b). by rewrite !app_assoc_string.
Qed.

Lemma manualChunks_vendor_extends_witness :
  manualChunks "node_modules/react/index.js" = Some "vendor" /\
  manualChunks ("/home/site/" +:+ "node_modules/react/index.js" +:+ "?v=1")
    = Some "vendor".
Proof.
  split; [reflexivity|].
  exact (manualChunks_vendor_extends "node_modules/react/index.js"
           "/home/site/" "?v=1" eq_refl).
Defined.
